(** * tools/ckeywords.c: the C keyword exporter of the CAmkES tool

    A shallow embedding of [main] of [tools/ckeywords.c] and the properties
    of its filter-and-wrap pass.

    Conventions of the embedding:
    - a C string is a [string]: the bytes before the terminating NUL;
    - [unsigned] is a [Z] in the range [0, 2^32), every arithmetic
      operation on it reduced modulo [2^32];
    - the [keywords] array is a [list (option string)], [None] for a [NULL]
      entry; the table is produced by including Clang's [TokenKinds.def],
      which is not part of the repository, so it is an argument of [main];
    - [stdout] is the string of all bytes printed so far;
    - the two calls into the regex library are modelled by a matcher for
      the fragment of POSIX basic regular expressions the pattern uses, and
      the return code of [regcomp] is an input of the run. *)

From Stdlib Require Import ZArith Lia Bool List Ascii String.
Import ListNotations.

Local Open Scope string_scope.
Local Open Scope Z_scope.

(** ** Characters and strings *)

Definition nl : string := String "010"%char "".
Definition dquote : string := String "034"%char "".
Definition backslash : string := String "092"%char "".

(** [strlen], as a mathematical integer (the [size_t] result). *)
Definition strlen (s : string) : Z := Z.of_nat (String.length s).

(** ** Unsigned arithmetic *)

Definition UINT_MODULUS : Z := 2 ^ 32.

(** Conversion to [unsigned]. *)
Definition to_unsigned (z : Z) : Z := z mod UINT_MODULUS.

(** [a + b] on [unsigned] operands. *)
Definition uadd (a b : Z) : Z := (a + b) mod UINT_MODULUS.

(** ** The environment profile (lines 42-59) and the keyword table *)

Inductive Flag : Set :=
  | KEYALL | KEYC99 | KEYC11 | KEYCXX | KEYNOCXX | KEYCXX11 | KEYGNU | KEYMS
  | KEYNOMS | KEYNOMS18 | KEYOPENCL | KEYNOOPENCL | KEYALTIVEC | KEYARC
  | KEYBORLAND | BOOLSUPPORT | HALFSUPPORT | WCHARSUPPORT.

(** A profile gives every flag macro its value. *)
Definition Profile : Set := Flag -> Z.

(** The [#define]s of the source. *)
Definition target_profile : Profile := fun f =>
  match f with
  | KEYALL => 1 | KEYC99 => 1 | KEYC11 => 1 | KEYCXX => 0 | KEYNOCXX => 1
  | KEYCXX11 => 0 | KEYGNU => 1 | KEYMS => 0 | KEYNOMS => 0 | KEYNOMS18 => 0
  | KEYOPENCL => 0 | KEYNOOPENCL => 1 | KEYALTIVEC => 0 | KEYARC => 0
  | KEYBORLAND => 0 | BOOLSUPPORT => 1 | HALFSUPPORT => 0 | WCHARSUPPORT => 1
  end.

(** [KEYWORD_(string, category)]: [(category) ? string : NULL]. *)
Definition KEYWORD_ (str : string) (category : Z) : option string :=
  if category =? 0 then None else Some str.

(** An entry of the included table after [KEYWORD] and [ALIAS] have been
    expanded: the string and the category expression, a bitwise or of flag
    macros. *)
Record Entry : Set := mkEntry { entry_text : string; entry_category : list Flag }.

Definition eval_category (p : Profile) (c : list Flag) : Z :=
  fold_right (fun f acc => Z.lor (p f) acc) 0 c.

(** The initialiser of [keywords]. *)
Definition keywords_of (p : Profile) (table : list Entry) : list (option string) :=
  map (fun e => KEYWORD_ (entry_text e) (eval_category p (entry_category e))) table.

(** A table of resolved (text, applicable) pairs, as an array initialiser:
    [applicable] is the truth value of the category. *)
Definition keywords_of_pairs (table : list (string * bool)) : list (option string) :=
  map (fun '(text, applicable) => KEYWORD_ text (Z.b2z applicable)) table.

(** ** The regex library, for the fragment the pattern uses *)

Definition REG_NOMATCH : Z := 1.

(** A bracket expression is a list of ranges ([c] alone is the range
    [c-c]); a piece is a bracket expression, starred or not. *)
Inductive Piece : Set :=
  | One (ranges : list (ascii * ascii))
  | Many (ranges : list (ascii * ascii)).

Record regex_t : Set := mkRegex { re_bol : bool; re_pieces : list Piece }.

Definition in_range (c : ascii) (r : ascii * ascii) : bool :=
  (N_of_ascii (fst r) <=? N_of_ascii c)%N && (N_of_ascii c <=? N_of_ascii (snd r))%N.

Definition in_bracket (ranges : list (ascii * ascii)) (c : ascii) : bool :=
  existsb (in_range c) ranges.

(** Does some prefix of [s] match the pieces? *)
Fixpoint match_here (ps : list Piece) (s : string) {struct ps} : bool :=
  match ps with
  | [] => true
  | One b :: ps' =>
      match s with
      | String c s' => in_bracket b c && match_here ps' s'
      | EmptyString => false
      end
  | Many b :: ps' =>
      (fix star (s : string) : bool :=
         match_here ps' s
         || match s with
            | String c s' => in_bracket b c && star s'
            | EmptyString => false
            end) s
  end.

(** Does a match start at some position of [s]? *)
Fixpoint match_anywhere (ps : list Piece) (s : string) : bool :=
  match_here ps s
  || match s with
     | String _ s' => match_anywhere ps s'
     | EmptyString => false
     end.

(** [regexec(&regex, s, 0, NULL, 0)]: [0] on a match, [REG_NOMATCH]
    otherwise. *)
Definition regexec (re : regex_t) (s : string) : Z :=
  if (if re_bol re then match_here (re_pieces re) s
      else match_anywhere (re_pieces re) s)
  then 0 else REG_NOMATCH.

(** The pattern [^[a-zA-Z_][a-zA-Z0-9_]*], compiled. *)
Definition ident_regex : regex_t :=
  mkRegex true
    [ One [("a", "z"); ("A", "Z"); ("_", "_")]%char;
      Many [("a", "z"); ("A", "Z"); ("0", "9"); ("_", "_")]%char ].

(** ** The constants of the program *)

Definition indent : string := "    ".
Definition wrap_at : Z := 80.

Definition header : string :=
  "#!/usr/bin/env python" ++ nl ++
  "# -*- coding: utf-8 -*-" ++ nl ++
  nl ++
  "#" ++ nl ++
  "# Copyright 2015, NICTA" ++ nl ++
  "#" ++ nl ++
  "# This software may be distributed and modified according to the terms of" ++ nl ++
  "# the BSD 2-Clause license. Note that NO WARRANTY is provided." ++ nl ++
  "# See " ++ dquote ++ "LICENSE_BSD2.txt" ++ dquote ++ " for details." ++ nl ++
  "#" ++ nl ++
  "# @TAG(NICTA_BSD)" ++ nl ++
  "#" ++ nl ++
  nl ++
  "# Generated by ckeywords.c. Do not edit manually." ++ nl ++
  nl ++
  "from __future__ import absolute_import, division, print_function, " ++ backslash ++ nl ++
  "    unicode_literals" ++ nl ++
  "from camkes.internal.seven import cmp, filter, map, zip" ++ nl ++
  nl ++
  "# A list of C keywords for the purpose of warning the user when a symbol in" ++ nl ++
  "# their input specification is likely to cause compiler errors." ++ nl ++
  "C_KEYWORDS = frozenset([" ++ nl.

Definition footer : string := "])" ++ nl.

Definition EXIT_SUCCESS : Z := 0.
Definition EXIT_FAILURE : Z := 1.

(** ** The program state and [main] *)

Record State : Set := mkState {
  newline : bool;     (* [bool newline] *)
  column : Z;         (* [unsigned column] *)
  out : string        (* everything written to [stdout] *)
}.

(** [printf("%s", s)]. *)
Definition print (s : string) (st : State) : State :=
  mkState (newline st) (column st) (out st ++ s).

(** The token [printf("'%s',", k)] writes. *)
Definition token (k : string) : string := "'" ++ k ++ "',".

(** Lines 131-135: the wrap check. *)
Definition wrap_check (len : Z) (st : State) : State :=
  if uadd (uadd (column st) len) 4 >? wrap_at
  then mkState true 0 (out st ++ nl)
  else st.

(** Lines 137-143: indentation or separating space. In
    [column += strlen(indent)] the sum is computed in [size_t] and converted
    back to [unsigned]. *)
Definition lead_in (st : State) : State :=
  if newline st
  then mkState false (to_unsigned (column st + strlen indent)) (out st ++ indent)
  else print " " st.

(** Lines 130-146: the part of the loop body after the two guards. *)
Definition emit (st : State) (k : string) : State :=
  let len := to_unsigned (strlen k) in
  let st := wrap_check len st in
  let st := lead_in st in
  let st := print (token k) st in
  mkState (newline st) (uadd (column st) (uadd len 4)) (out st).

(** Lines 120-147: one iteration of the loop. *)
Definition loop_body (regex : regex_t) (st : State) (kw : option string) : State :=
  match kw with
  | None => st                                       (* [continue] *)
  | Some k =>
      if regexec regex k =? REG_NOMATCH then st      (* [continue] *)
      else emit st k
  end.

(** What the run gets from the C library: the return code of [regcomp]
    and the text [perror] appends for the current [errno]. *)
Record Libc : Set := mkLibc { regcomp_rc : Z; errno_text : string }.

(** What a run leaves behind: the exit status and the two streams. *)
Record Result : Set := mkResult { status : Z; stdout : string; stderr : string }.

(** Lines 108-109: [newline = true], [column = 0], nothing printed yet. *)
Definition initial : State := mkState true 0 "".

(** Lines 107-154. *)
Definition main (libc : Libc) (keywords : list (option string)) : Result :=
  if negb (regcomp_rc libc =? 0)
  then mkResult EXIT_FAILURE ""
         ("failed to compile regex: " ++ errno_text libc ++ nl)
  else
    let st := print header initial in
    let st := fold_left (loop_body ident_regex) keywords st in
    let st := print (nl ++ footer) st in
    mkResult EXIT_SUCCESS (out st) "".

(** A regex library that compiles the pattern. *)
Definition libc_ok : Libc := mkLibc 0 "".

(** ** The accepted keywords *)

(** The entries that pass both guards of the loop body, in table order. *)
Definition passes (regex : regex_t) (kw : option string) : list string :=
  match kw with
  | None => []
  | Some k => if regexec regex k =? REG_NOMATCH then [] else [k]
  end.

(** The keywords the loop emits a token for. *)
Definition accepted (keywords : list (option string)) : list string :=
  flat_map (passes ident_regex) keywords.

(** The keyword lines: the effect of the loop on [stdout], started after
    the header. *)
Definition render (ks : list string) : State :=
  fold_left emit ks (print header initial).

(** ** The vocabulary of the specification *)

Definition is_letter (c : ascii) : bool :=
  let n := N_of_ascii c in
  ((97 <=? n) && (n <=? 122) || (65 <=? n) && (n <=? 90))%N.

Definition is_digit (c : ascii) : bool :=
  let n := N_of_ascii c in ((48 <=? n) && (n <=? 57))%N.

Definition is_underscore (c : ascii) : bool := (c =? "_")%char.

Fixpoint all_chars (f : ascii -> bool) (s : string) : bool :=
  match s with
  | EmptyString => true
  | String c s' => f c && all_chars f s'
  end.

(** An identifier: one leading letter or underscore, then letters, digits
    and underscores. *)
Definition identifier (s : string) : bool :=
  match s with
  | EmptyString => false
  | String c s' =>
      (is_letter c || is_underscore c)
      && all_chars (fun d => is_letter d || is_digit d || is_underscore d) s'
  end.

(** The identifier shape: an identifier at the start of the string,
    whatever follows it. *)
Definition identifier_shaped (s : string) : Prop :=
  exists p rest, identifier p = true /\ s = p ++ rest.

(** A candidate pair is kept when it is applicable and the pattern
    matches its text. *)
Definition kept (c : string * bool) : bool :=
  snd c && negb (regexec ident_regex (fst c) =? REG_NOMATCH).

(** *** Lines of a text *)

Definition is_nl (c : ascii) : bool := (c =? "010")%char.

(** [cut cur s]: the lines [s] completes, [cur] being the part of the
    current line already read, and the line left open at the end. *)
Fixpoint cut (cur : string) (s : string) : list string * string :=
  match s with
  | EmptyString => ([], cur)
  | String c s' =>
      if is_nl c
      then let rest := cut "" s' in (cur :: fst rest, snd rest)
      else cut (cur ++ String c "") s'
  end.

(** The lines of a text, the text after the last newline included. *)
Definition lines (s : string) : list string :=
  fst (cut "" s) ++ [snd (cut "" s)].

Definition no_newline (s : string) : Prop := all_chars (fun c => negb (is_nl c)) s = true.

(** The lines of the header, each ended by its newline. *)
Definition header_lines : list string := fst (cut "" header).

(** *** Greedy packing, as the specification words it *)

(** Is the row still without a token? *)
Definition at_row_start (cur : list string) : bool :=
  match cur with [] => true | _ => false end.

(** The rows of tokens: [width] is what the current row [cur] takes, its
    indentation and, for each of its tokens, the quoted text, the comma and
    a separating space. A token joins the current row exactly when the row
    with it would not exceed the wrap width; otherwise it starts a new,
    indented row. *)
Fixpoint pack (width : Z) (cur : list string) (ks : list string) : list (list string) :=
  match ks with
  | [] => [cur]
  | k :: ks' =>
      if width + (strlen (token k) + 1) <=? wrap_at
      then pack ((if at_row_start cur then strlen indent else 0)
                 + width + (strlen (token k) + 1)) (cur ++ [k]) ks'
      else cur :: pack (strlen indent + (strlen (token k) + 1)) [k] ks'
  end.

(** A row as text: the indentation, then the tokens of the row separated
    by single spaces. *)
Definition render_row (row : list string) : string :=
  match row with
  | [] => ""
  | _ => indent ++ String.concat " " (map token row)
  end.

(** *** Separation of the tokens *)

(** [Separated start ks body]: [body] is the tokens of [ks] in order, each
    one preceded by the indentation (the very first token, [start] telling
    that nothing was emitted before), by one space (same line as the token
    before), or by a newline and the indentation (a new line). *)
Inductive Separated : bool -> list string -> string -> Prop :=
  | Separated_nil start : Separated start [] ""
  | Separated_first k ks body :
      Separated false ks body ->
      Separated true (k :: ks) (indent ++ token k ++ body)
  | Separated_space k ks body :
      Separated false ks body ->
      Separated false (k :: ks) (" " ++ token k ++ body)
  | Separated_wrap start k ks body :
      Separated false ks body ->
      Separated start (k :: ks) (nl ++ indent ++ token k ++ body).

(** *** Lines within the wrap width *)

(** A line is within the wrap width, or it is a line of the indented token
    of one of the keywords [ks], a token that is itself wider than the wrap
    width. *)
Definition line_within (ks : list string) (l : string) : Prop :=
  strlen l <= wrap_at
  \/ exists k, In k ks /\ wrap_at < strlen (indent ++ token k)
               /\ In l (lines (indent ++ token k)).

(** The state of the loop between two tokens: the completed lines and the
    open line are within the width, and [column] runs one ahead of the open
    line once it holds a token. *)
Definition width_inv (ks : list string) (st : State) : Prop :=
  Forall (line_within ks) (fst (cut "" (out st)))
  /\ line_within ks (snd (cut "" (out st)))
  /\ 0 <= column st < 2 ^ 31
  /\ (if newline st then snd (cut "" (out st)) = ""
      else strlen (snd (cut "" (out st))) + 1 <= column st).

(** *** Lengths the [unsigned] arithmetic handles without wrapping around *)

Definition short_enough (k : string) : Prop := strlen k + 8 < 2 ^ 31.

(** *** Sample inputs *)

(** [n] times the character [c]. *)
Fixpoint replicate (n : nat) (c : ascii) : string :=
  match n with
  | O => ""
  | S n' => String c (replicate n' c)
  end.

(** The table of the scenario in the specification. *)
Definition scenario_table : list (string * bool) :=
  [("int", true); ("__attribute__", true); ("restrict", false); ("123bad", true)].

(** ** Strings *)

Lemma append_assoc (a b c : string) : (a ++ b) ++ c = a ++ b ++ c.
Proof. induction a as [|x a IH]; simpl; [reflexivity | now rewrite IH]. Qed.

Lemma append_nil_r (a : string) : a ++ "" = a.
Proof. induction a as [|x a IH]; simpl; [reflexivity | now rewrite IH]. Qed.

Lemma strlen_append (a b : string) : strlen (a ++ b) = strlen a + strlen b.
Proof.
  unfold strlen. induction a as [|x a IH]; simpl String.length.
  - reflexivity.
  - rewrite !Nat2Z.inj_succ, IH. lia.
Qed.

Lemma strlen_nonneg (a : string) : 0 <= strlen a.
Proof. unfold strlen. lia. Qed.

Lemma strlen_token (k : string) : strlen (token k) = strlen k + 3.
Proof.
  unfold token. rewrite !strlen_append.
  change (strlen "'") with 1. change (strlen "',") with 2. lia.
Qed.

(** ** The pattern *)

Lemma first_bracket (c : ascii) :
  in_bracket [("a", "z"); ("A", "Z"); ("_", "_")]%char c = is_letter c || is_underscore c.
Proof.
  destruct c as [[] [] [] [] [] [] [] []]; reflexivity.
Qed.

Lemma regexec_ident (s : string) :
  regexec ident_regex s =
  match s with
  | String c _ => if is_letter c || is_underscore c then 0 else REG_NOMATCH
  | EmptyString => REG_NOMATCH
  end.
Proof.
  unfold regexec, ident_regex. cbn [re_bol re_pieces match_here].
  destruct s as [|c s]; [reflexivity|].
  rewrite first_bracket. destruct s; cbn [orb]; now rewrite andb_true_r.
Qed.

Lemma identifier_shaped_first (s : string) :
  identifier_shaped s <->
  exists c s', s = String c s' /\ is_letter c || is_underscore c = true.
Proof.
  split.
  - intros (p & rest & Hp & ->). destruct p as [|c p]; [discriminate|].
    cbn in Hp. apply andb_true_iff in Hp. destruct Hp as [Hc _].
    exists c, (p ++ rest). split; [reflexivity | exact Hc].
  - intros (c & s' & -> & Hc). exists (String c ""), s'.
    split; [|reflexivity]. cbn. now rewrite Hc.
Qed.

Lemma regexec_shaped (s : string) :
  regexec ident_regex s <> REG_NOMATCH <-> identifier_shaped s.
Proof.
  rewrite regexec_ident, identifier_shaped_first. destruct s as [|c s].
  - split; [congruence | intros (? & ? & ? & _); discriminate].
  - destruct (is_letter c || is_underscore c) eqn:E.
    + split; [intros _; now exists c, s | unfold REG_NOMATCH; lia].
    + split; [congruence|]. intros (c' & s' & H & Hc). injection H as <- <-.
      congruence.
Qed.

(** ** The loop and the accepted keywords *)

Lemma loop_body_passes (st : State) (kw : option string) :
  loop_body ident_regex st kw = fold_left emit (passes ident_regex kw) st.
Proof.
  destruct kw as [k|]; cbn; [|reflexivity].
  destruct (regexec ident_regex k =? REG_NOMATCH); reflexivity.
Qed.

Lemma loop_accepted (keywords : list (option string)) (st : State) :
  fold_left (loop_body ident_regex) keywords st = fold_left emit (accepted keywords) st.
Proof.
  revert st. induction keywords as [|kw kws IH]; intros st; [reflexivity|].
  unfold accepted. cbn [fold_left flat_map]. rewrite fold_left_app.
  rewrite loop_body_passes. apply IH.
Qed.

Lemma main_render (libc : Libc) (keywords : list (option string)) :
  regcomp_rc libc = 0 ->
  main libc keywords =
  mkResult EXIT_SUCCESS (out (render (accepted keywords)) ++ nl ++ footer) "".
Proof.
  intros Hrc. unfold main, render. rewrite Hrc, loop_accepted. reflexivity.
Qed.

Lemma accepted_pairs (table : list (string * bool)) :
  accepted (keywords_of_pairs table) = map fst (filter kept table).
Proof.
  induction table as [|[text applicable] table IH]; [reflexivity|].
  unfold accepted, keywords_of_pairs in *. cbn [map flat_map filter].
  rewrite IH. unfold kept at 2. cbn [fst snd].
  destruct applicable; cbn; [|reflexivity].
  destruct (regexec ident_regex text =? REG_NOMATCH); reflexivity.
Qed.

Lemma kept_iff (text : string) (applicable : bool) :
  kept (text, applicable) = true <-> applicable = true /\ identifier_shaped text.
Proof.
  unfold kept. cbn [fst snd]. rewrite andb_true_iff, negb_true_iff, Z.eqb_neq.
  now rewrite regexec_shaped.
Qed.

(** ** One token, when nothing wraps around *)

Lemma emit_exact (st : State) (k : string) :
  0 <= column st < 2 ^ 31 -> short_enough k ->
  emit st k =
  let wrap := wrap_at <? column st + strlen k + 4 in
  mkState false
    ((if wrap then 4 else if newline st then column st + 4 else column st)
     + strlen k + 4)
    (out st ++ (if wrap then nl ++ indent else if newline st then indent else " ")
            ++ token k).
Proof.
  intros Hc Hk. unfold short_enough in Hk. pose proof (strlen_nonneg k) as Hn.
  unfold emit, wrap_check, lead_in, print, uadd, to_unsigned, UINT_MODULUS, wrap_at.
  change (strlen indent) with 4.
  rewrite (Z.mod_small (strlen k)) by lia.
  rewrite (Z.mod_small (column st + strlen k)) by lia.
  rewrite (Z.mod_small (column st + strlen k + 4)) by lia.
  rewrite (Z.mod_small (strlen k + 4)) by lia.
  rewrite Z.gtb_ltb. cbv zeta.
  destruct (80 <? column st + strlen k + 4) eqn:W; cbn [newline column out].
  - change (4 mod 2 ^ 32) with 4. change ((0 + 4) mod 2 ^ 32) with 4.
    rewrite Z.mod_small by lia. f_equal; [lia | now rewrite !append_assoc].
  - apply Z.ltb_ge in W. destruct (newline st); cbn [newline column out].
    + change (4 mod 2 ^ 32) with 4. rewrite (Z.mod_small (column st + 4)) by lia.
      rewrite Z.mod_small by lia. f_equal; [lia | now rewrite !append_assoc].
    + rewrite Z.mod_small by lia. f_equal; [lia | now rewrite !append_assoc].
Qed.

Lemma emit_column (st : State) (k : string) :
  0 <= column st < 2 ^ 31 -> short_enough k ->
  0 <= column (emit st k) < 2 ^ 31.
Proof.
  intros Hc Hk. rewrite emit_exact by assumption. cbv zeta. cbn [column].
  unfold short_enough in Hk. pose proof (strlen_nonneg k). unfold wrap_at.
  destruct (80 <? column st + strlen k + 4) eqn:W; [lia|].
  apply Z.ltb_ge in W. destruct (newline st); lia.
Qed.

(** ** The loop against the greedy packing *)

Lemma concat_cons (sep a : string) (l : list string) :
  l <> [] -> String.concat sep (a :: l) = a ++ sep ++ String.concat sep l.
Proof. destruct l; [congruence | reflexivity]. Qed.

Lemma concat_snoc (sep : string) (l : list string) (x : string) :
  l <> [] ->
  String.concat sep (l ++ [x])%list = String.concat sep l ++ sep ++ x.
Proof.
  induction l as [|a l IH]; intros Hl; [congruence|].
  destruct l as [|b l]; [reflexivity|].
  change ((a :: b :: l) ++ [x])%list with (a :: ((b :: l) ++ [x]))%list.
  rewrite concat_cons by (cbn; discriminate). rewrite IH by discriminate.
  rewrite (concat_cons sep a (b :: l)) by discriminate. now rewrite !append_assoc.
Qed.

Lemma render_row_snoc (cur : list string) (k : string) :
  render_row (cur ++ [k])%list =
  render_row cur ++ (if at_row_start cur then indent else " ") ++ token k.
Proof.
  destruct cur as [|k0 cur]; [reflexivity|].
  cbn [at_row_start]. change (render_row (k0 :: cur)) with
    (indent ++ String.concat " " (map token (k0 :: cur))).
  change ((k0 :: cur) ++ [k])%list with (k0 :: (cur ++ [k]))%list.
  cbn [render_row]. change (k0 :: (cur ++ [k]))%list with ((k0 :: cur) ++ [k])%list.
  rewrite map_app. cbn [map]. rewrite concat_snoc by discriminate.
  now rewrite !append_assoc.
Qed.

Lemma pack_nonempty (ks cur : list string) (width : Z) : pack width cur ks <> [].
Proof.
  revert cur width. induction ks as [|k ks IH]; intros cur width; cbn [pack].
  - discriminate.
  - destruct (width + (strlen (token k) + 1) <=? wrap_at); [apply IH | discriminate].
Qed.

Lemma emit_pack (ks : list string) :
  Forall short_enough ks ->
  forall (st : State) (cur : list string) (pre : string),
    0 <= column st < 2 ^ 31 ->
    newline st = at_row_start cur ->
    out st = pre ++ render_row cur ->
    out (fold_left emit ks st) =
    pre ++ String.concat nl (map render_row (pack (column st) cur ks)).
Proof.
  induction 1 as [|k ks Hk Hks IH]; intros st cur pre Hc Hn Ho.
  - cbn. now rewrite Ho.
  - cbn [fold_left pack]. pose proof (emit_column st k Hc Hk) as Hc'.
    pose proof (emit_exact st k Hc Hk) as E. cbv zeta in E.
    rewrite strlen_token. change (strlen indent) with 4.
    replace (column st + (strlen k + 3 + 1) <=? wrap_at)
      with (negb (wrap_at <? column st + strlen k + 4))
      by (rewrite <- Z.leb_antisym; f_equal; lia).
    destruct (wrap_at <? column st + strlen k + 4) eqn:W; cbn [negb].
    + cbn [map]. rewrite concat_cons
        by (intros C; apply map_eq_nil in C; revert C; apply pack_nonempty).
      rewrite (IH (emit st k) [k] (pre ++ render_row cur ++ nl)); [| assumption | | ].
      * rewrite E. cbn [column]. rewrite !append_assoc. do 6 f_equal. lia.
      * rewrite E. reflexivity.
      * rewrite E. cbn [out render_row map String.concat]. rewrite Ho.
        now rewrite !append_assoc.
    + rewrite (IH (emit st k) (cur ++ [k])%list pre); [| assumption | | ].
      * rewrite E. cbn [column]. rewrite Hn. do 4 f_equal.
        destruct (at_row_start cur); lia.
      * rewrite E. cbn [newline]. now destruct cur.
      * rewrite E. cbn [out]. rewrite Ho, Hn, render_row_snoc.
        now rewrite !append_assoc.
Qed.

(** ** Lines *)

Lemma cut_app (a : string) :
  forall (cur b : string),
    cut cur (a ++ b) =
    ((fst (cut cur a) ++ fst (cut (snd (cut cur a)) b))%list,
     snd (cut (snd (cut cur a)) b)).
Proof.
  induction a as [|c a IH]; intros cur b; cbn [append cut fst snd app].
  - now destruct (cut cur b).
  - destruct (is_nl c); cbn [fst snd app]; now rewrite IH.
Qed.

Lemma cut_nl (cur s : string) :
  cut cur (nl ++ s) = (cur :: fst (cut "" s), snd (cut "" s)).
Proof. reflexivity. Qed.

Lemma cut_bound (s : string) :
  forall cur : string,
    Forall (fun l => strlen l <= strlen cur + strlen s) (fst (cut cur s))
    /\ strlen (snd (cut cur s)) <= strlen cur + strlen s.
Proof.
  induction s as [|c s IH]; intros cur; cbn [cut].
  - cbn [fst snd]. split; [constructor | unfold strlen; cbn; lia].
  - assert (Hs : strlen (String c s) = 1 + strlen s)
      by (unfold strlen; cbn [String.length]; lia).
    pose proof (strlen_nonneg s) as Hn. pose proof (strlen_nonneg cur) as Hn'.
    destruct (is_nl c); cbn [fst snd].
    + destruct (IH "") as [Hl Hr]. change (strlen "") with 0 in *. split.
      * constructor; [lia|]. eapply Forall_impl; [|exact Hl]. cbn beta. lia.
      * lia.
    + destruct (IH (cur ++ String c "")) as [Hl Hr].
      rewrite strlen_append in *. change (strlen (String c "")) with 1 in *. split.
      * eapply Forall_impl; [|exact Hl]. cbn beta. lia.
      * lia.
Qed.

Lemma cut_no_newline (s : string) :
  no_newline s -> forall cur : string, cut cur s = ([], cur ++ s).
Proof.
  unfold no_newline. induction s as [|c s IH]; intros H cur; cbn [cut all_chars] in *.
  - now rewrite append_nil_r.
  - apply andb_true_iff in H. destruct H as [Hc Hs].
    apply negb_true_iff in Hc. rewrite Hc, IH by assumption.
    now rewrite append_assoc.
Qed.

Lemma lines_app (a b : string) :
  lines (a ++ b) =
  (fst (cut "" a) ++ fst (cut (snd (cut "" a)) b) ++ [snd (cut (snd (cut "" a)) b)])%list.
Proof. unfold lines. rewrite cut_app. cbn [fst snd]. now rewrite <- app_assoc. Qed.

(** ** The wrap width as an invariant of the loop *)

Section Width.

Variable acc : list string.

Lemma short_line_within (l : string) : strlen l <= wrap_at -> line_within acc l.
Proof. intros H. now left. Qed.

Lemma token_lines_within (k : string) :
  In k acc -> Forall (line_within acc) (lines (indent ++ token k)).
Proof.
  intros Hk. destruct (Z_lt_le_dec wrap_at (strlen (indent ++ token k))) as [L|L].
  - apply Forall_forall. intros l Hl. right. now exists k.
  - destruct (cut_bound (indent ++ token k) "") as [H1 H2].
    change (strlen "") with 0 in *. unfold lines. apply Forall_app. split.
    + eapply Forall_impl; [|exact H1]. cbn beta. intros l Hl. left. lia.
    + constructor; [left; lia | constructor].
Qed.

Lemma width_inv_emit (st : State) (k : string) :
  In k acc -> short_enough k -> width_inv acc st -> width_inv acc (emit st k).
Proof.
  intros Hin Hk (Hdone & Hopen & Hc & Hcol).
  pose proof (emit_column st k Hc Hk) as Hc'.
  pose proof (emit_exact st k Hc Hk) as E. cbv zeta in E.
  pose proof (strlen_nonneg k) as Hn. unfold short_enough in Hk.
  pose proof (token_lines_within k Hin) as Htok. unfold lines in Htok.
  apply Forall_app in Htok. destruct Htok as [Ht1 Ht2].
  apply Forall_inv in Ht2.
  destruct (cut_bound (indent ++ token k) "") as [_ Hb].
  rewrite strlen_append, strlen_token in Hb.
  change (strlen "") with 0 in Hb. change (strlen indent) with 4 in Hb.
  unfold width_inv. rewrite E. cbn [newline column out].
  rewrite cut_app. cbn [fst snd].
  destruct (wrap_at <? column st + strlen k + 4) eqn:W.
  - (* a new line *)
    rewrite append_assoc, cut_nl. cbn [fst snd]. repeat split; try lia.
    + apply Forall_app. split; [assumption|]. now constructor.
    + assumption.
  - apply Z.ltb_ge in W. unfold wrap_at in W. destruct (newline st).
    + (* the first token, on the open line of the header *)
      rewrite Hcol. repeat split; try lia.
      * apply Forall_app. now split.
      * assumption.
    + (* one more token on the current line *)
      destruct (cut_bound (" " ++ token k) (snd (cut "" (out st)))) as [B1 B2].
      rewrite strlen_append, strlen_token in B1, B2.
      change (strlen " ") with 1 in B1, B2. repeat split; try lia.
      * apply Forall_app. split; [assumption|].
        eapply Forall_impl; [|exact B1]. cbn beta. intros l Hl.
        apply short_line_within. unfold wrap_at. lia.
      * apply short_line_within. unfold wrap_at. lia.
Qed.

Lemma width_inv_fold (ks : list string) :
  Forall short_enough ks -> incl ks acc ->
  forall st : State, width_inv acc st -> width_inv acc (fold_left emit ks st).
Proof.
  induction 1 as [|k ks Hk Hks IH]; intros Hincl st Hst; [exact Hst|].
  cbn [fold_left]. apply IH.
  - intros x Hx. apply Hincl. now right.
  - apply width_inv_emit; [apply Hincl; now left | assumption | assumption].
Qed.

Lemma width_inv_header : width_inv acc (print header initial).
Proof.
  unfold width_inv. change (out (print header initial)) with header.
  change (column (print header initial)) with 0.
  change (newline (print header initial)) with true.
  assert (Hcut : cut "" header = (header_lines, "")) by (vm_compute; reflexivity).
  rewrite Hcut. cbn [fst snd].
  split; [|split; [|split; [lia | reflexivity]]].
  - assert (H : forallb (fun l => strlen l <=? wrap_at) header_lines = true)
      by (vm_compute; reflexivity).
    rewrite forallb_forall in H. apply Forall_forall. intros l Hl.
    apply short_line_within, Z.leb_le, H, Hl.
  - apply short_line_within. discriminate.
Qed.

Lemma width_inv_footer (st : State) :
  width_inv acc st -> Forall (line_within acc) (lines (out st ++ nl ++ footer)).
Proof.
  intros (Hdone & Hopen & _ & _). rewrite lines_app, cut_nl.
  change (cut "" footer) with (["])"], ""). cbn [fst snd app].
  apply Forall_app. split; [assumption|].
  constructor; [assumption|].
  constructor; [apply short_line_within; discriminate|].
  constructor; [apply short_line_within; discriminate | constructor].
Qed.

End Width.

(** ** What precedes each token *)

Lemma emit_out (st : State) (k : string) :
  newline (emit st k) = false
  /\ exists sep,
       out (emit st k) = out st ++ sep ++ token k
       /\ (sep = nl ++ indent
           \/ (newline st = true /\ sep = indent)
           \/ (newline st = false /\ sep = " ")).
Proof.
  unfold emit, wrap_check, lead_in, print.
  destruct (uadd (uadd (column st) (to_unsigned (strlen k))) 4 >? wrap_at);
    cbn [newline column out].
  - split; [reflexivity|]. exists (nl ++ indent).
    split; [now rewrite !append_assoc | now left].
  - destruct (newline st) eqn:N; cbn [newline column out].
    + split; [reflexivity|]. exists indent.
      split; [now rewrite !append_assoc | right; now left].
    + split; [reflexivity|]. exists " ".
      split; [now rewrite !append_assoc | right; now right].
Qed.

Lemma separated_fold (ks : list string) :
  forall st : State,
    exists body,
      Separated (newline st) ks body /\ out (fold_left emit ks st) = out st ++ body.
Proof.
  induction ks as [|k ks IH]; intros st.
  - exists "". split; [constructor | cbn; now rewrite append_nil_r].
  - destruct (emit_out st k) as (N & sep & Ho & Hsep).
    destruct (IH (emit st k)) as (body & Hb & Hf). rewrite N in Hb.
    exists (sep ++ token k ++ body). split.
    + destruct Hsep as [-> | [[Hn ->] | [Hn ->]]].
      * rewrite append_assoc. now apply Separated_wrap.
      * rewrite Hn. now apply Separated_first.
      * rewrite Hn. now apply Separated_space.
    + cbn [fold_left]. rewrite Hf, Ho. now rewrite !append_assoc.
Qed.

Lemma out_extends (ks : list string) (st : State) :
  exists suffix, out (fold_left emit ks st) = out st ++ suffix.
Proof.
  destruct (separated_fold ks st) as (body & _ & H). now exists body.
Qed.

(** ** A token wider than the wrap width *)

Lemma all_chars_app (f : ascii -> bool) (a b : string) :
  all_chars f (a ++ b) = all_chars f a && all_chars f b.
Proof.
  induction a as [|c a IH]; cbn [append all_chars]; [reflexivity|].
  now rewrite IH, andb_assoc.
Qed.

Lemma no_newline_token (k : string) : no_newline k -> no_newline (indent ++ token k).
Proof.
  unfold no_newline, token. intros H. rewrite !all_chars_app, H. reflexivity.
Qed.

Lemma line_between (pre s post : string) :
  no_newline s -> In s (lines (pre ++ nl ++ s ++ nl ++ post)).
Proof.
  intros Hs. rewrite lines_app, cut_nl. cbn [fst snd].
  rewrite cut_app, (cut_no_newline s Hs ""), cut_nl. cbn [fst snd app append].
  apply in_or_app. right. right. now left.
Qed.

Lemma after_wide (ks : list string) (st : State) :
  wrap_at < column st < 2 ^ 31 -> Forall short_enough ks ->
  exists post, out (fold_left emit ks st) ++ nl ++ footer = out st ++ nl ++ post.
Proof.
  intros Hc Hks. destruct Hks as [|k ks Hk Hks].
  - now exists footer.
  - cbn [fold_left]. destruct (out_extends ks (emit st k)) as (suffix & ->).
    rewrite emit_exact by (assumption || (unfold wrap_at in Hc; lia)).
    cbv zeta. pose proof (strlen_nonneg k) as Hn.
    replace (wrap_at <? column st + strlen k + 4) with true
      by (symmetry; apply Z.ltb_lt; lia).
    cbn [out]. exists (indent ++ token k ++ suffix ++ nl ++ footer).
    now rewrite !append_assoc.
Qed.

Lemma wide_token_fold (ks : list string) :
  Forall short_enough ks ->
  forall k : string,
    In k ks -> wrap_at < strlen (token k) ->
    forall st : State,
      0 <= column st < 2 ^ 31 ->
      exists pre post,
        out (fold_left emit ks st) ++ nl ++ footer
        = pre ++ nl ++ indent ++ token k ++ nl ++ post.
Proof.
  induction 1 as [|k0 ks Hk0 Hks IH]; intros k Hin Hwide st Hc; [contradiction|].
  cbn [fold_left]. destruct Hin as [-> | Hin].
  - pose proof (emit_exact st k Hc Hk0) as E. cbv zeta in E.
    rewrite strlen_token in Hwide. unfold short_enough in Hk0.
    replace (wrap_at <? column st + strlen k + 4) with true in E
      by (symmetry; apply Z.ltb_lt; lia).
    destruct (after_wide ks (emit st k)) as (post & Hpost).
    + rewrite E. cbn [column]. lia.
    + assumption.
    + exists (out st), post. rewrite Hpost, E. cbn [out].
      now rewrite !append_assoc.
  - apply (IH k Hin Hwide). now apply emit_column.
Qed.

(** ** The header *)

Lemma cut_header : cut "" header = (header_lines, "").
Proof. vm_compute. reflexivity. Qed.

Lemma lines_after_header (s : string) :
  lines (header ++ nl ++ s) = (header_lines ++ "" :: lines s)%list.
Proof.
  rewrite lines_app, cut_header, cut_nl. reflexivity.
Qed.

Lemma emit_wrap (st : State) (k : string) :
  (uadd (uadd (column st) (to_unsigned (strlen k))) 4 >? wrap_at) = true ->
  out (emit st k) = out st ++ nl ++ indent ++ token k.
Proof.
  intros W. unfold emit, wrap_check. rewrite W. cbn [lead_in newline print out].
  now rewrite !append_assoc.
Qed.

Lemma separated_token (start : bool) (ks : list string) (body : string) :
  Separated start ks body ->
  forall k, In k ks -> exists pre post, body = pre ++ token k ++ post.
Proof.
  induction 1 as [start | k0 ks body H IH | k0 ks body H IH | start k0 ks body H IH];
    intros k Hin; [contradiction | | | ].
  - destruct Hin as [-> | Hin].
    + now exists indent, body.
    + destruct (IH k Hin) as (pre & post & ->).
      exists (indent ++ token k0 ++ pre), post. now rewrite !append_assoc.
  - destruct Hin as [-> | Hin].
    + now exists " ", body.
    + destruct (IH k Hin) as (pre & post & ->).
      exists (" " ++ token k0 ++ pre), post. now rewrite !append_assoc.
  - destruct Hin as [-> | Hin].
    + exists (nl ++ indent), body. now rewrite !append_assoc.
    + destruct (IH k Hin) as (pre & post & ->).
      exists (nl ++ indent ++ token k0 ++ pre), post. now rewrite !append_assoc.
Qed.

Lemma render_out (ks : list string) :
  exists body, Separated true ks body /\ out (render ks) = header ++ body.
Proof.
  destruct (separated_fold ks (print header initial)) as (body & Hs & Ho).
  exists body. split; [exact Hs | exact Ho].
Qed.

Lemma main_failure (libc : Libc) (keywords : list (option string)) :
  regcomp_rc libc <> 0 ->
  main libc keywords =
  mkResult EXIT_FAILURE "" ("failed to compile regex: " ++ errno_text libc ++ nl).
Proof.
  intros Hrc. unfold main. apply Z.eqb_neq in Hrc. now rewrite Hrc.
Qed.

(** * The properties of the specification *)

(** C1. The accepted texts of a table of (text, applicable) pairs are the
    texts of the pairs that are applicable and whose text the pattern
    matches, in table order: the texts of the table filtered by [kept]. A
    pair is kept exactly when it is applicable and its text has the
    identifier shape (an identifier at its start, whatever follows), and
    what the run prints between header and footer is the rendering of
    these texts. *)
Theorem accepted_applicable_and_shaped (table : list (string * bool)) :
  accepted (keywords_of_pairs table) = map fst (filter kept table)
  /\ (forall text applicable,
        kept (text, applicable) = true
        <-> applicable = true /\ identifier_shaped text)
  /\ (forall text,
        In text (accepted (keywords_of_pairs table))
        <-> In (text, true) table /\ identifier_shaped text)
  /\ stdout (main libc_ok (keywords_of_pairs table))
     = out (render (map fst (filter kept table))) ++ nl ++ footer.
Proof.
  split; [apply accepted_pairs|]. split; [apply kept_iff|]. split.
  - intros text. rewrite accepted_pairs, in_map_iff. split.
    + intros ([text' applicable] & Heq & Hin). cbn in Heq. subst text'.
      apply filter_In in Hin. destruct Hin as [Hin Hk].
      apply kept_iff in Hk. destruct Hk as [-> Hs]. now split.
    + intros [Hin Hs]. exists (text, true). split; [reflexivity|].
      apply filter_In. split; [exact Hin | now apply kept_iff].
  - rewrite main_render by reflexivity. cbn [stdout]. now rewrite accepted_pairs.
Qed.

(** C4. The scenario table: "int" and "__attribute__" are accepted, in this
    order; "restrict" is dropped as inapplicable and "123bad" as not
    identifier-shaped, and the two accepted keywords are what is printed. *)
Theorem scenario_accepted :
  accepted (keywords_of_pairs scenario_table) = ["int"; "__attribute__"]
  /\ KEYWORD_ "restrict" (Z.b2z false) = None
  /\ ~ identifier_shaped "123bad"
  /\ stdout (main libc_ok (keywords_of_pairs scenario_table))
     = header ++ "    'int', '__attribute__'," ++ nl ++ footer.
Proof.
  split; [reflexivity|]. split; [reflexivity|]. split.
  - intros H. apply regexec_shaped in H. now apply H.
  - vm_compute. reflexivity.
Qed.

(** C5, as stated, fails: for the empty table the output is not the header
    immediately followed by the footer. *)
Lemma empty_table_not_header_footer :
  stdout (main libc_ok []) <> header ++ footer.
Proof.
  intros H. apply (f_equal String.length) in H. vm_compute in H. discriminate.
Qed.

(** C5, amended. When no keyword is accepted (the empty table included) the
    output is the header, one newline character, and the footer. *)
Theorem no_keyword_output (libc : Libc) (keywords : list (option string)) :
  regcomp_rc libc = 0 -> accepted keywords = [] ->
  stdout (main libc keywords) = header ++ nl ++ footer.
Proof.
  intros Hrc Hacc. rewrite main_render by assumption. now rewrite Hacc.
Qed.

Lemma no_keyword_output_witness :
  stdout (main libc_ok [None; Some "123bad"]) = header ++ nl ++ footer.
Proof.
  apply (no_keyword_output libc_ok [None; Some "123bad"]); reflexivity.
Defined.

(** C7. The exit status is a failure status exactly when [regcomp] reports
    an error, whatever the table holds; otherwise the status is
    [EXIT_SUCCESS] and the pass has run to its end, footer included. *)
Theorem exit_status (libc : Libc) (keywords : list (option string)) :
  (status (main libc keywords) <> 0 <-> regcomp_rc libc <> 0)
  /\ (status (main libc keywords) = EXIT_SUCCESS <-> regcomp_rc libc = 0)
  /\ (status (main libc keywords) = EXIT_SUCCESS
      <-> stdout (main libc keywords)
          = out (render (accepted keywords)) ++ nl ++ footer).
Proof.
  destruct (Z.eq_dec (regcomp_rc libc) 0) as [Hrc | Hrc].
  - rewrite main_render by assumption. cbn [status stdout].
    unfold EXIT_SUCCESS. repeat split; intros; (congruence || lia).
  - rewrite main_failure by assumption. cbn [status stdout].
    unfold EXIT_SUCCESS, EXIT_FAILURE. repeat split; intros; try (congruence || lia).
    match goal with H : "" = _ |- _ => apply (f_equal strlen) in H; revert H end.
    destruct (render_out (accepted keywords)) as (body & _ & ->).
    rewrite !strlen_append. pose proof (strlen_nonneg body).
    change (strlen "") with 0. change (strlen header) with 635.
    change (strlen nl) with 1. change (strlen footer) with 3. lia.
Qed.




(** C2. The keyword lines are the greedy packing of the accepted keywords:
    a token joins the current row exactly when the row's width so far (its
    indentation and, per token, the quoted text, the comma and a separating
    space) plus the token's own quoted text, comma and separating space
    does not exceed 80; otherwise a new row starts. Each row is printed as
    the 4-space indentation followed by its tokens separated by single
    spaces, so the first token of the list and of every row follows the
    indentation, not a space. Keyword lengths are taken within the range
    [unsigned] handles without wrapping around. *)
Theorem greedy_packing (libc : Libc) (keywords : list (option string)) :
  regcomp_rc libc = 0 ->
  Forall short_enough (accepted keywords) ->
  stdout (main libc keywords)
  = header
    ++ String.concat nl (map render_row (pack 0 [] (accepted keywords)))
    ++ nl ++ footer.
Proof.
  intros Hrc Hshort. rewrite main_render by assumption. cbn [stdout].
  unfold render.
  rewrite (emit_pack (accepted keywords) Hshort (print header initial) [] header).
  - change (column (print header initial)) with 0. now rewrite !append_assoc.
  - change (column (print header initial)) with 0. lia.
  - reflexivity.
  - cbn [render_row]. now rewrite append_nil_r.
Qed.

Lemma greedy_packing_witness :
  stdout (main libc_ok [Some (replicate 40 "a"); None; Some (replicate 20 "b");
                        Some "c"; Some "1x"; Some (replicate 77 "d");
                        Some "e"; Some "f"])
  = header
    ++ String.concat nl
         (map render_row
            [[replicate 40 "a"; replicate 20 "b"; "c"]; [replicate 77 "d"];
             ["e"; "f"]])
    ++ nl ++ footer.
Proof.
  apply (greedy_packing libc_ok
           [Some (replicate 40 "a"); None; Some (replicate 20 "b");
            Some "c"; Some "1x"; Some (replicate 77 "d"); Some "e"; Some "f"]).
  - reflexivity.
  - repeat constructor.
Defined.

(** C3, as stated, fails: a table with one applicable 74-letter keyword
    yields a line of 81 characters. *)
Lemma wide_keyword_exceeds_wrap :
  ~ Forall (fun l => strlen l <= wrap_at)
      (lines (stdout (main libc_ok [Some (replicate 74 "a")]))).
Proof.
  intros H. rewrite Forall_forall in H.
  specialize (H (indent ++ token (replicate 74 "a"))).
  assert (Hin : In (indent ++ token (replicate 74 "a"))
                   (lines (stdout (main libc_ok [Some (replicate 74 "a")])))).
  { rewrite main_render by reflexivity. cbn [stdout].
    change (out (render (accepted [Some (replicate 74 "a")])))
      with (header ++ indent ++ token (replicate 74 "a")).
    rewrite append_assoc, lines_app, cut_header. cbn [fst snd].
    apply in_or_app. right. vm_compute. now left. }
  specialize (H Hin). vm_compute in H. now apply H.
Qed.

(** C3, amended. Every line of the output is at most 80 characters long,
    or it is a line of the indented token of an accepted keyword whose
    indented token is itself longer than 80 characters (a keyword of more
    than 73 characters). Keyword lengths are taken within the range
    [unsigned] handles without wrapping around. *)
Theorem lines_within_wrap (libc : Libc) (keywords : list (option string)) :
  Forall short_enough (accepted keywords) ->
  Forall (line_within (accepted keywords)) (lines (stdout (main libc keywords))).
Proof.
  intros Hshort. destruct (Z.eq_dec (regcomp_rc libc) 0) as [Hrc | Hrc].
  - rewrite main_render by assumption. cbn [stdout].
    apply width_inv_footer. unfold render.
    apply width_inv_fold; [assumption | apply incl_refl | apply width_inv_header].
  - rewrite main_failure by assumption. cbn [stdout].
    constructor; [|constructor]. apply short_line_within. discriminate.
Qed.

Lemma lines_within_wrap_witness :
  Forall (line_within ["int"; "__attribute__"])
    (lines (stdout (main libc_ok (keywords_of_pairs scenario_table)))).
Proof.
  apply (lines_within_wrap libc_ok (keywords_of_pairs scenario_table)).
  repeat constructor.
Defined.

(** C6. An accepted keyword whose quoted, comma-terminated token is longer
    than 80 characters is printed whole, alone between two newlines: after
    a newline come the indentation, the token, and the next newline. When
    the keyword holds no newline character itself, the indented token is
    one of the lines of the output. Keyword lengths are taken within the
    range [unsigned] handles without wrapping around. *)
Theorem wide_token_own_line
    (libc : Libc) (keywords : list (option string)) (k : string) :
  regcomp_rc libc = 0 ->
  Forall short_enough (accepted keywords) ->
  In k (accepted keywords) ->
  wrap_at < strlen (token k) ->
  (exists pre post,
     stdout (main libc keywords) = pre ++ nl ++ indent ++ token k ++ nl ++ post)
  /\ (no_newline k -> In (indent ++ token k) (lines (stdout (main libc keywords)))).
Proof.
  intros Hrc Hshort Hin Hwide. rewrite main_render by assumption. cbn [stdout].
  destruct (wide_token_fold (accepted keywords) Hshort k Hin Hwide
              (print header initial)) as (pre & post & H).
  - change (column (print header initial)) with 0. lia.
  - fold (render (accepted keywords)) in H. rewrite H. split.
    + now exists pre, post.
    + intros Hk. rewrite <- (append_assoc indent).
      apply line_between. now apply no_newline_token.
Qed.

Lemma wide_token_own_line_witness :
  (exists pre post,
     stdout (main libc_ok [Some "int"; Some (replicate 78 "w"); Some "x"])
     = pre ++ nl ++ indent ++ token (replicate 78 "w") ++ nl ++ post)
  /\ (no_newline (replicate 78 "w") ->
      In (indent ++ token (replicate 78 "w"))
         (lines (stdout (main libc_ok [Some "int"; Some (replicate 78 "w"); Some "x"])))).
Proof.
  apply (wide_token_own_line libc_ok
           [Some "int"; Some (replicate 78 "w"); Some "x"] (replicate 78 "w")).
  - reflexivity.
  - repeat constructor.
  - right. left. reflexivity.
  - reflexivity.
Defined.

(** C9. Between header and footer the output is the tokens of the accepted
    keywords in order, each the keyword between single quotes followed by a
    comma, the first one preceded by the indentation (or by a newline and
    the indentation), every other one by exactly one space when it stays on
    the line of the token before it and by a newline and the indentation
    otherwise. In particular the token of every accepted keyword occurs in
    the output. *)
Theorem tokens_quoted_and_separated (libc : Libc) (keywords : list (option string)) :
  regcomp_rc libc = 0 ->
  (exists body,
     Separated true (accepted keywords) body
     /\ stdout (main libc keywords) = header ++ body ++ nl ++ footer)
  /\ (forall k, In k (accepted keywords) ->
        exists pre post,
          stdout (main libc keywords) = pre ++ "'" ++ k ++ "'," ++ post).
Proof.
  intros Hrc. rewrite main_render by assumption. cbn [stdout].
  destruct (render_out (accepted keywords)) as (body & Hsep & ->). split.
  - exists body. split; [exact Hsep | now rewrite append_assoc].
  - intros k Hin. destruct (separated_token _ _ _ Hsep k Hin) as (pre & post & ->).
    exists (header ++ pre), (post ++ nl ++ footer). unfold token.
    now rewrite !append_assoc.
Qed.

Lemma tokens_quoted_and_separated_witness :
  (exists body,
     Separated true (accepted (keywords_of_pairs scenario_table)) body
     /\ stdout (main libc_ok (keywords_of_pairs scenario_table))
        = header ++ body ++ nl ++ footer)
  /\ (forall k, In k (accepted (keywords_of_pairs scenario_table)) ->
        exists pre post,
          stdout (main libc_ok (keywords_of_pairs scenario_table))
          = pre ++ "'" ++ k ++ "'," ++ post).
Proof.
  apply (tokens_quoted_and_separated libc_ok (keywords_of_pairs scenario_table)).
  reflexivity.
Defined.

(** C10. When the wrap check of the first accepted keyword fires with
    [column] still 0, that is when [len + 4 > 80] in [unsigned] arithmetic,
    a newline is printed right after the header and before the first
    token: the header is followed by an empty line, and the first keyword
    line comes after it. *)
Theorem empty_line_before_wide_first
    (libc : Libc) (keywords : list (option string)) (k : string) (ks : list string) :
  regcomp_rc libc = 0 ->
  accepted keywords = k :: ks ->
  wrap_at < uadd (uadd 0 (to_unsigned (strlen k))) 4 ->
  exists post,
    stdout (main libc keywords) = header ++ nl ++ indent ++ token k ++ post
    /\ lines (stdout (main libc keywords))
       = (header_lines ++ "" :: lines (indent ++ token k ++ post))%list.
Proof.
  intros Hrc Hacc Hwrap. rewrite main_render by assumption. cbn [stdout].
  rewrite Hacc. unfold render. cbn [fold_left].
  destruct (out_extends ks (emit (print header initial) k)) as (suffix & ->).
  rewrite emit_wrap
    by (change (column (print header initial)) with 0; now apply Z.gtb_lt).
  change (out (print header initial)) with header.
  exists (suffix ++ nl ++ footer).
  rewrite !append_assoc. split; [reflexivity | apply lines_after_header].
Qed.

Lemma empty_line_before_wide_first_witness :
  exists post,
    stdout (main libc_ok [Some (replicate 77 "a"); Some "b"])
    = header ++ nl ++ indent ++ token (replicate 77 "a") ++ post
    /\ lines (stdout (main libc_ok [Some (replicate 77 "a"); Some "b"]))
       = (header_lines ++ "" :: lines (indent ++ token (replicate 77 "a") ++ post))%list.
Proof.
  apply (empty_line_before_wide_first libc_ok
           [Some (replicate 77 "a"); Some "b"] (replicate 77 "a") ["b"]);
    reflexivity.
Defined.

(** * Further properties of the pass *)

(** ** The table *)

Lemma accepted_app (k1 k2 : list (option string)) :
  accepted (k1 ++ k2)%list = (accepted k1 ++ accepted k2)%list.
Proof. unfold accepted. apply flat_map_app. Qed.

Lemma accepted_keeps_accepted (keywords : list (option string)) :
  accepted (map Some (accepted keywords)) = accepted keywords.
Proof.
  induction keywords as [|kw kws IH]; [reflexivity|].
  change (kw :: kws) with ([kw] ++ kws)%list.
  rewrite accepted_app, map_app, accepted_app, IH. f_equal.
  destruct kw as [k|]; [|reflexivity].
  unfold accepted. cbn [flat_map passes app].
  destruct (regexec ident_regex k =? REG_NOMATCH) eqn:E; [reflexivity|].
  cbn [map flat_map passes app]. now rewrite E.
Qed.

Lemma eval_category_zero (p : Profile) (c : list Flag) :
  eval_category p c = 0 <-> forall f, In f c -> p f = 0.
Proof.
  induction c as [|f c IH]; cbn [eval_category fold_right].
  - split; [intros _ f [] | reflexivity].
  - fold (eval_category p c). rewrite Z.lor_eq_0_iff, IH. split.
    + intros [Hf Hc] g [<- | Hg]; [exact Hf | now apply Hc].
    + intros H. split; [apply H; now left | intros g Hg; apply H; now right].
Qed.

(** X1. Entries the loop skips leave no trace: the run on a table and the
    run on the table reduced to its accepted keywords give the same exit
    status, the same [stdout] and the same [stderr]. *)
Theorem skipped_entries_leave_no_trace (libc : Libc) (keywords : list (option string)) :
  main libc keywords = main libc (map Some (accepted keywords)).
Proof.
  unfold main. destruct (negb (regcomp_rc libc =? 0)); [reflexivity|].
  cbv zeta. now rewrite !loop_accepted, accepted_keeps_accepted.
Qed.

(** X2. The pass is online: what is printed for a table stays, byte for
    byte, when entries are appended to the table; only text between it and
    the closing newline and footer is added. *)
Theorem appended_entries_extend_output
    (libc : Libc) (keywords more : list (option string)) :
  regcomp_rc libc = 0 ->
  exists body added,
    stdout (main libc keywords) = header ++ body ++ nl ++ footer
    /\ stdout (main libc (keywords ++ more)%list)
       = header ++ body ++ added ++ nl ++ footer.
Proof.
  intros Hrc. rewrite !main_render by assumption. cbn [stdout].
  rewrite accepted_app. unfold render. rewrite fold_left_app.
  fold (render (accepted keywords)).
  destruct (out_extends (accepted more) (render (accepted keywords))) as (added & ->).
  destruct (render_out (accepted keywords)) as (body & _ & ->).
  exists body, added. now rewrite !append_assoc.
Qed.

Lemma appended_entries_extend_output_witness :
  exists body added,
    stdout (main libc_ok [Some "int"; None])
    = header ++ body ++ nl ++ footer
    /\ stdout (main libc_ok ([Some "int"; None] ++ [Some "char"; Some "9x"])%list)
       = header ++ body ++ added ++ nl ++ footer.
Proof.
  apply (appended_entries_extend_output libc_ok
           [Some "int"; None] [Some "char"; Some "9x"]).
  reflexivity.
Defined.

(** X3. When the first accepted keyword passes the wrap check (its length
    plus 4 is at most 80), its token follows the header directly, after the
    indentation: no empty line separates them. *)
Theorem first_token_after_header
    (libc : Libc) (keywords : list (option string)) (k : string) (ks : list string) :
  regcomp_rc libc = 0 ->
  accepted keywords = k :: ks ->
  strlen k + 4 <= wrap_at ->
  exists post,
    stdout (main libc keywords) = header ++ indent ++ token k ++ post
    /\ lines (stdout (main libc keywords))
       = (header_lines ++ lines (indent ++ token k ++ post))%list.
Proof.
  intros Hrc Hacc Hlen. rewrite main_render by assumption. cbn [stdout].
  rewrite Hacc. unfold render. cbn [fold_left].
  destruct (out_extends ks (emit (print header initial) k)) as (suffix & ->).
  unfold wrap_at in Hlen. pose proof (strlen_nonneg k) as Hn.
  rewrite emit_exact
    by (unfold short_enough; change (column (print header initial)) with 0; lia).
  cbv zeta. change (column (print header initial)) with 0.
  change (newline (print header initial)) with true.
  change (out (print header initial)) with header.
  replace (wrap_at <? 0 + strlen k + 4) with false
    by (symmetry; apply Z.ltb_ge; unfold wrap_at; lia).
  cbn [out]. exists (suffix ++ nl ++ footer). rewrite !append_assoc.
  split; [reflexivity|].
  unfold lines at 1. rewrite cut_app, cut_header. cbn [fst snd].
  unfold lines. now rewrite <- app_assoc.
Qed.

Lemma first_token_after_header_witness :
  exists post,
    stdout (main libc_ok [None; Some "int"; Some "char"])
    = header ++ indent ++ token "int" ++ post
    /\ lines (stdout (main libc_ok [None; Some "int"; Some "char"]))
       = (header_lines ++ lines (indent ++ token "int" ++ post))%list.
Proof.
  apply (first_token_after_header libc_ok
           [None; Some "int"; Some "char"] "int" ["char"]).
  - reflexivity.
  - reflexivity.
  - vm_compute. discriminate.
Defined.

(** X4. A run writes to exactly one of its two streams: [stdout] is empty
    exactly when [regcomp] reports an error, [stderr] is empty exactly when
    it does not, and the text on [stderr] is the [perror] message, the
    prefix "failed to compile regex", a colon and a space, the text for
    [errno], and a newline. *)
Theorem one_stream_written (libc : Libc) (keywords : list (option string)) :
  (stdout (main libc keywords) = "" <-> regcomp_rc libc <> 0)
  /\ (stderr (main libc keywords) = "" <-> regcomp_rc libc = 0)
  /\ (stderr (main libc keywords) = ""
      \/ stderr (main libc keywords)
         = "failed to compile regex: " ++ errno_text libc ++ nl).
Proof.
  destruct (Z.eq_dec (regcomp_rc libc) 0) as [Hrc | Hrc].
  - rewrite main_render by assumption. cbn [stdout stderr].
    split; [|split; [tauto | now left]].
    split; [|congruence]. intros H. apply (f_equal strlen) in H. revert H.
    destruct (render_out (accepted keywords)) as (body & _ & ->).
    rewrite !strlen_append. pose proof (strlen_nonneg body).
    change (strlen "") with 0. change (strlen header) with 635.
    change (strlen nl) with 1. change (strlen footer) with 3. lia.
  - rewrite main_failure by assumption. cbn [stdout stderr].
    split; [tauto|]. split; [|now right]. split; [discriminate | tauto].
Qed.

(** X5. Entry by entry: the element of [keywords] at the position of a
    table entry is the text of that entry exactly when one of the flags of
    the entry's category is non-zero in the profile, and it is [NULL]
    exactly when all of them are zero. *)
Theorem entry_applicable_iff_flag_set
    (p : Profile) (table : list Entry) (i : nat) (e : Entry) :
  nth_error table i = Some e ->
  (nth_error (keywords_of p table) i = Some (Some (entry_text e))
   <-> exists f, In f (entry_category e) /\ p f <> 0)
  /\ (nth_error (keywords_of p table) i = Some None
      <-> forall f, In f (entry_category e) -> p f = 0).
Proof.
  intros Hi. unfold keywords_of. rewrite nth_error_map, Hi. cbn [option_map].
  unfold KEYWORD_. pose proof (eval_category_zero p (entry_category e)) as Hz.
  destruct (eval_category p (entry_category e) =? 0) eqn:E.
  - apply Z.eqb_eq in E. split.
    + split; [discriminate|]. intros (f & Hf & Hp). exfalso. apply Hp.
      now apply (proj1 Hz E).
    + split; [intros _; now apply Hz | reflexivity].
  - apply Z.eqb_neq in E. split.
    + split; [intros _ | reflexivity].
      assert (Hex : Exists (fun f => p f <> 0) (entry_category e)).
      { apply neg_Forall_Exists_neg; [intros f; apply Z.eq_dec|].
        intros HF. apply E, Hz. now apply Forall_forall. }
      apply Exists_exists in Hex. exact Hex.
    + split; [discriminate|]. intros H. exfalso. now apply E, Hz.
Qed.

Lemma entry_applicable_iff_flag_set_witness :
  (nth_error (keywords_of target_profile
                [mkEntry "_Bool" [KEYNOCXX]; mkEntry "_Bool" [KEYCXX; KEYMS]]) 1
   = Some (Some "_Bool")
   <-> exists f, In f [KEYCXX; KEYMS] /\ target_profile f <> 0)
  /\ (nth_error (keywords_of target_profile
                   [mkEntry "_Bool" [KEYNOCXX]; mkEntry "_Bool" [KEYCXX; KEYMS]]) 1
      = Some None
      <-> forall f, In f [KEYCXX; KEYMS] -> target_profile f = 0).
Proof.
  apply (entry_applicable_iff_flag_set target_profile
           [mkEntry "_Bool" [KEYNOCXX]; mkEntry "_Bool" [KEYCXX; KEYMS]]
           1%nat (mkEntry "_Bool" [KEYCXX; KEYMS])).
  reflexivity.
Defined.

(** ** The rows of the output *)

Lemma render_pack (ks : list string) :
  Forall short_enough ks ->
  out (render ks) = header ++ String.concat nl (map render_row (pack 0 [] ks)).
Proof.
  intros Hshort. unfold render.
  rewrite (emit_pack ks Hshort (print header initial) [] header).
  - reflexivity.
  - change (column (print header initial)) with 0. lia.
  - reflexivity.
  - cbn [render_row]. now rewrite append_nil_r.
Qed.

Lemma pack_concat (ks : list string) :
  forall (cur : list string) (width : Z),
    List.concat (pack width cur ks) = (cur ++ ks)%list.
Proof.
  induction ks as [|k ks IH]; intros cur width; cbn [pack].
  - cbn. now rewrite !app_nil_r.
  - destruct (width + (strlen (token k) + 1) <=? wrap_at).
    + rewrite IH, <- app_assoc. reflexivity.
    + cbn [List.concat]. rewrite IH. reflexivity.
Qed.

Lemma pack_rows_nonempty (ks : list string) :
  forall (cur : list string) (width : Z),
    cur <> [] -> Forall (fun row => row <> []) (pack width cur ks).
Proof.
  induction ks as [|k ks IH]; intros cur width Hcur; cbn [pack].
  - now constructor.
  - destruct (width + (strlen (token k) + 1) <=? wrap_at).
    + apply IH. now destruct cur.
    + constructor; [exact Hcur | apply IH; discriminate].
Qed.

Lemma pack_tail_nonempty (ks cur : list string) (width : Z) :
  Forall (fun row => row <> []) (tl (pack width cur ks)).
Proof.
  destruct ks as [|k ks]; cbn [pack]; [constructor|].
  destruct (width + (strlen (token k) + 1) <=? wrap_at).
  - assert (H : Forall (fun row : list string => row <> [])
                  (pack ((if at_row_start cur then strlen indent else 0)
                         + width + (strlen (token k) + 1)) (cur ++ [k]) ks))
      by (apply pack_rows_nonempty; now destruct cur).
    destruct H; [constructor | assumption].
  - cbn [tl]. apply pack_rows_nonempty. discriminate.
Qed.

Lemma render_row_single (k : string) : render_row [k] = indent ++ token k.
Proof. reflexivity. Qed.

Lemma pack_rows_short (ks : list string) :
  forall (cur : list string) (width : Z),
    (cur = [] /\ width = 0) \/ (cur <> [] /\ width = strlen (render_row cur) + 1) ->
    ((2 <= List.length cur)%nat -> strlen (render_row cur) <= 79) ->
    Forall (fun row => (2 <= List.length row)%nat -> strlen (render_row row) <= 79)
      (pack width cur ks).
Proof.
  induction ks as [|k ks IH]; intros cur width Hw Hcur; cbn [pack].
  - now constructor.
  - pose proof (strlen_nonneg k) as Hn.
    destruct (width + (strlen (token k) + 1) <=? wrap_at) eqn:W.
    + apply Z.leb_le in W. unfold wrap_at in W. rewrite strlen_token in *.
      change (strlen indent) with 4. destruct Hw as [[-> ->] | [Hne ->]].
      * apply IH.
        -- right. split; [discriminate|]. cbn [app at_row_start].
           rewrite render_row_single, strlen_append, strlen_token.
           change (strlen indent) with 4. lia.
        -- cbn. lia.
      * assert (Hs : strlen (render_row (cur ++ [k]))
                     = strlen (render_row cur) + 1 + (strlen k + 3)).
        { rewrite render_row_snoc. destruct cur; [congruence|].
          cbn [at_row_start]. rewrite !strlen_append, strlen_token.
          change (strlen " ") with 1. lia. }
        apply IH.
        -- right. split; [now destruct cur|]. rewrite Hs.
           destruct cur; [congruence|]. cbn [at_row_start]. lia.
        -- intros _. rewrite Hs. lia.
    + constructor; [exact Hcur|]. apply IH.
      * right. split; [discriminate|]. rewrite render_row_single, strlen_append.
        lia.
      * cbn. lia.
Qed.

Lemma pack_members (ks : list string) :
  forall (cur : list string) (width : Z) (row : list string) (k : string),
    In row (pack width cur ks) -> In k row -> In k cur \/ In k ks.
Proof.
  induction ks as [|k0 ks IH]; intros cur width row k Hrow Hk; cbn [pack] in Hrow.
  - destruct Hrow as [<- | []]. now left.
  - destruct (width + (strlen (token k0) + 1) <=? wrap_at).
    + destruct (IH _ _ _ _ Hrow Hk) as [H | H].
      * apply in_app_or in H. destruct H as [H | [<- | []]];
          [now left | right; now left].
      * right. now right.
    + destruct Hrow as [<- | Hrow]; [now left|].
      destruct (IH _ _ _ _ Hrow Hk) as [[<- | []] | H];
        [right; now left | right; now right].
Qed.

Lemma no_newline_app (a b : string) :
  no_newline a -> no_newline b -> no_newline (a ++ b).
Proof. unfold no_newline. intros Ha Hb. now rewrite all_chars_app, Ha, Hb. Qed.

Lemma no_newline_render_row (row : list string) :
  Forall no_newline row -> no_newline (render_row row).
Proof.
  intros H. destruct row as [|k row]; [reflexivity|].
  change (render_row (k :: row)) with (indent ++ String.concat " " (map token (k :: row))).
  apply no_newline_app; [reflexivity|].
  induction H as [|k' row' Hk Hrow IH]; [reflexivity|].
  assert (Ht : no_newline (token k'))
    by (unfold token; repeat apply no_newline_app; (reflexivity || assumption)).
  destruct row' as [|k'' row'']; [exact Ht|].
  change (map token (k' :: k'' :: row'')) with (token k' :: map token (k'' :: row'')).
  rewrite concat_cons by discriminate.
  repeat apply no_newline_app; (reflexivity || assumption).
Qed.

Lemma lines_header (s : string) : lines (header ++ s) = (header_lines ++ lines s)%list.
Proof.
  unfold lines at 1. rewrite cut_app, cut_header. cbn [fst snd].
  unfold lines. now rewrite <- app_assoc.
Qed.

Lemma lines_row (r rest : string) :
  no_newline r -> lines (r ++ nl ++ rest) = r :: lines rest.
Proof.
  intros Hr. unfold lines. rewrite cut_app, (cut_no_newline r Hr ""), cut_nl.
  reflexivity.
Qed.

Lemma lines_rows (rs : list string) (rest : string) :
  rs <> [] -> Forall no_newline rs ->
  lines (String.concat nl rs ++ nl ++ rest) = (rs ++ lines rest)%list.
Proof.
  intros Hne H. induction H as [|r rs Hr Hrs IH]; [congruence|].
  destruct rs as [|r' rs].
  - cbn [String.concat app]. now apply lines_row.
  - rewrite concat_cons by discriminate. rewrite !append_assoc.
    rewrite lines_row by assumption. rewrite IH by discriminate. reflexivity.
Qed.

(** ** The column counter *)

Lemma emit_tracks (st : State) (k : string) :
  short_enough k -> no_newline k -> 0 <= column st < 2 ^ 31 ->
  (newline st = true /\ column st = 0 /\ snd (cut "" (out st)) = "")
  \/ (newline st = false /\ column st = strlen (snd (cut "" (out st))) + 1) ->
  newline (emit st k) = false
  /\ column (emit st k) = strlen (snd (cut "" (out (emit st k)))) + 1.
Proof.
  intros Hk Hnl Hc Hst. rewrite emit_exact by assumption. cbv zeta.
  cbn [newline column out]. split; [reflexivity|].
  pose proof (no_newline_token k Hnl) as Htok.
  assert (Hlen : strlen (indent ++ token k) = strlen k + 7)
    by (rewrite strlen_append, strlen_token; change (strlen indent) with 4; lia).
  rewrite cut_app. cbn [snd].
  destruct (wrap_at <? column st + strlen k + 4).
  - rewrite append_assoc, cut_nl. cbn [snd].
    rewrite (cut_no_newline _ Htok ""). cbn [snd append]. rewrite Hlen. lia.
  - destruct Hst as [(-> & -> & ->) | (-> & ->)].
    + rewrite (cut_no_newline _ Htok ""). cbn [snd append]. rewrite Hlen. lia.
    + assert (Hsp : no_newline (" " ++ token k))
        by (apply no_newline_app; [reflexivity|];
            unfold token; repeat apply no_newline_app; (reflexivity || assumption)).
      rewrite (cut_no_newline _ Hsp). cbn [snd].
      rewrite !strlen_append, strlen_token. change (strlen " ") with 1. lia.
Qed.

Lemma fold_tracks (ks : list string) :
  Forall short_enough ks -> Forall no_newline ks ->
  forall st : State,
    0 <= column st < 2 ^ 31 ->
    newline st = false /\ column st = strlen (snd (cut "" (out st))) + 1 ->
    newline (fold_left emit ks st) = false
    /\ column (fold_left emit ks st)
       = strlen (snd (cut "" (out (fold_left emit ks st)))) + 1.
Proof.
  induction 1 as [|k ks Hk Hks IH]; intros Hnl st Hc Hst; [exact Hst|].
  cbn [fold_left]. apply Forall_cons_iff in Hnl. destruct Hnl as [Hnk Hnks].
  apply (IH Hnks).
  - now apply emit_column.
  - apply emit_tracks; try assumption. now right.
Qed.

(** X6. The keyword part of the output is a sequence of rows that holds
    every accepted keyword once, in order: each row is printed as the
    indentation and the row's tokens separated by single spaces, rows are
    separated by newlines, only the first row can be empty, and a row of two
    or more tokens is at most 79 characters long. Keyword lengths are taken
    within the range [unsigned] handles without wrapping around. *)
Theorem rows_of_output (libc : Libc) (keywords : list (option string)) :
  regcomp_rc libc = 0 ->
  Forall short_enough (accepted keywords) ->
  exists rows : list (list string),
    List.concat rows = accepted keywords
    /\ Forall (fun row => row <> []) (tl rows)
    /\ Forall (fun row => (2 <= List.length row)%nat -> strlen (render_row row) <= 79)
         rows
    /\ stdout (main libc keywords)
       = header ++ String.concat nl (map render_row rows) ++ nl ++ footer.
Proof.
  intros Hrc Hshort. exists (pack 0 [] (accepted keywords)).
  split; [apply pack_concat|]. split; [apply pack_tail_nonempty|]. split.
  - apply pack_rows_short; [now left | cbn; lia].
  - rewrite main_render by assumption. cbn [stdout].
    rewrite render_pack by assumption. now rewrite append_assoc.
Qed.

Lemma rows_of_output_witness :
  exists rows : list (list string),
    List.concat rows = accepted [Some (replicate 40 "a"); None; Some (replicate 30 "b");
                                 Some "c"]
    /\ Forall (fun row => row <> []) (tl rows)
    /\ Forall (fun row => (2 <= List.length row)%nat -> strlen (render_row row) <= 79)
         rows
    /\ stdout (main libc_ok [Some (replicate 40 "a"); None; Some (replicate 30 "b");
                             Some "c"])
       = header ++ String.concat nl (map render_row rows) ++ nl ++ footer.
Proof.
  apply (rows_of_output libc_ok
           [Some (replicate 40 "a"); None; Some (replicate 30 "b"); Some "c"]).
  - reflexivity.
  - repeat constructor.
Defined.

(** X7. When no accepted keyword holds a newline character, the lines of
    the output are the lines of the header, then one line per row of
    tokens, then the line of the closing bracket and the empty remainder
    after the last newline; the rows hold the accepted keywords in order.
    Keyword lengths are taken within the range [unsigned] handles without
    wrapping around. *)
Theorem lines_of_output (libc : Libc) (keywords : list (option string)) :
  regcomp_rc libc = 0 ->
  Forall short_enough (accepted keywords) ->
  Forall no_newline (accepted keywords) ->
  exists rows : list (list string),
    List.concat rows = accepted keywords
    /\ lines (stdout (main libc keywords))
       = (header_lines ++ map render_row rows ++ ["])"; ""])%list.
Proof.
  intros Hrc Hshort Hnl. exists (pack 0 [] (accepted keywords)).
  split; [apply pack_concat|].
  rewrite main_render by assumption. cbn [stdout].
  rewrite render_pack by assumption. rewrite append_assoc, lines_header.
  f_equal. rewrite lines_rows.
  - reflexivity.
  - intros C. apply map_eq_nil in C. revert C. apply pack_nonempty.
  - apply Forall_forall. intros r Hr. apply in_map_iff in Hr.
    destruct Hr as (row & <- & Hrow). apply no_newline_render_row.
    apply Forall_forall. intros k Hk.
    destruct (pack_members _ _ _ _ _ Hrow Hk) as [[] | Hin].
    rewrite Forall_forall in Hnl. now apply Hnl.
Qed.

Lemma lines_of_output_witness :
  exists rows : list (list string),
    List.concat rows = accepted (keywords_of_pairs scenario_table)
    /\ lines (stdout (main libc_ok (keywords_of_pairs scenario_table)))
       = (header_lines ++ map render_row rows ++ ["])"; ""])%list.
Proof.
  apply (lines_of_output libc_ok (keywords_of_pairs scenario_table)).
  - reflexivity.
  - repeat constructor.
  - repeat constructor.
Defined.

(** X8. After the loop has emitted at least one token, [newline] is false
    and [column] is one more than the length of the line the output ends
    with: the counter includes the separating space of a token still to
    come. This holds when no accepted keyword holds a newline character
    and keyword lengths are within the range [unsigned] handles without
    wrapping around. *)
Theorem column_tracks_open_line (keywords : list (option string)) :
  accepted keywords <> [] ->
  Forall short_enough (accepted keywords) ->
  Forall no_newline (accepted keywords) ->
  newline (fold_left (loop_body ident_regex) keywords (print header initial)) = false
  /\ column (fold_left (loop_body ident_regex) keywords (print header initial))
     = strlen (snd (cut "" (out (fold_left (loop_body ident_regex) keywords
                                   (print header initial))))) + 1.
Proof.
  intros Hne Hshort Hnl. rewrite loop_accepted.
  destruct (accepted keywords) as [|k ks]; [congruence|].
  apply Forall_cons_iff in Hshort. destruct Hshort as [Hk Hks].
  apply Forall_cons_iff in Hnl. destruct Hnl as [Hnk Hnks].
  assert (Hc : 0 <= column (print header initial) < 2 ^ 31)
    by (change (column (print header initial)) with 0; lia).
  cbn [fold_left]. apply (fold_tracks ks Hks Hnks).
  - now apply emit_column.
  - apply emit_tracks; try assumption. left.
    change (out (print header initial)) with header. rewrite cut_header.
    repeat split.
Qed.

Lemma column_tracks_open_line_witness :
  newline (fold_left (loop_body ident_regex) (keywords_of_pairs scenario_table)
             (print header initial)) = false
  /\ column (fold_left (loop_body ident_regex) (keywords_of_pairs scenario_table)
               (print header initial))
     = strlen (snd (cut "" (out (fold_left (loop_body ident_regex)
                                   (keywords_of_pairs scenario_table)
                                   (print header initial))))) + 1.
Proof.
  apply (column_tracks_open_line (keywords_of_pairs scenario_table)).
  - discriminate.
  - repeat constructor.
  - repeat constructor.
Defined.
